(** * Parallel-plate TEM line solver ([tem_app.py]): model and properties

    The solver [calculate_tem] of [tem_app.py] is a closed-form evaluation on
    Python and NumPy double-precision numbers.  This development has two
    layers.

    The first embeds the solver over the real numbers of the Standard
    Library: every arithmetic operation of the source is read as the exact
    operation on [R] (and on pairs of reals for [complex]).  It keeps

    - the two material tables, as ordered association lists;
    - the order of evaluation of [calculate_tem], line by line;
    - the Python exceptions the body can raise ([IndexError] on the two
      material lists, [ZeroDivisionError] on the divisions carried out on
      Python floats), threaded through a small error monad;
    - NumPy's scalar promotion: [np.lib.scimath.sqrt] of a negative real is
      a complex number, so the per-unit-length resistance is a [num], real
      or complex;
    - [np.linspace] with its overwritten end point, the principal complex
      square root, the complex exponential and the complex division.

    This layer has no rounding, no overflow, no underflow and no NaN.  The
    statements proved on it are those that do not depend on them: which
    expression each returned field is, which exception is raised, the shape
    of the returned sequences, and sign facts restricted to inputs for which
    no intermediate result leaves the binary64 range ([moderate_input]).

    The second layer, module [B64], follows the same lines on binary64
    floats, with the IEEE 754 operations of Rocq's primitive floats.  It
    shows what overflow does to the returned values, which the first layer
    cannot express. *)

From Stdlib Require Import Reals Lra Lia List String Arith.
From Stdlib Require Floats.
Import ListNotations.

Open Scope R_scope.

(** ** Complex numbers, as pairs of reals *)

Record complex : Set := mkC { Re : R; Im : R }.

Definition RtoC (x : R) : complex := mkC x 0.

(** The Python literal [1j]. *)
Definition Cj : complex := mkC 0 1.

Definition Cadd (u v : complex) : complex :=
  mkC (Re u + Re v) (Im u + Im v).

Definition Cneg (u : complex) : complex :=
  mkC (- Re u) (- Im u).

Definition Cmul (u v : complex) : complex :=
  mkC (Re u * Re v - Im u * Im v) (Re u * Im v + Im u * Re v).

(** Complex division, in exact arithmetic.  For [v = 0] NumPy returns NaN
    components and raises nothing; the value below is then the one Rocq's
    total division gives, and has no meaning.  Every statement that reads a
    quotient is about inputs on which the divisor is not zero; what the
    code returns for [0/0] is the subject of [B64.Z0_b64]. *)
Definition Cdiv (u v : complex) : complex :=
  let n := Re v * Re v + Im v * Im v in
  mkC ((Re u * Re v + Im u * Im v) / n) ((Im u * Re v - Re u * Im v) / n).

(** [np.exp] on a complex number, in exact arithmetic: no rounding, no
    overflow to infinity, no underflow to zero.  The statements on this
    layer read the profiles for their shape only (lengths, which quotient
    each current sample is); the binary64 value of the first voltage sample
    is the subject of [B64.V0_b64]. *)
Definition Cexp (u : complex) : complex :=
  mkC (exp (Re u) * cos (Im u)) (exp (Re u) * sin (Im u)).

Definition hypot (a b : R) : R := sqrt (a * a + b * b).

(** [np.sqrt] on a complex number: the principal square root, computed the
    way the C library does (half-sum under a real square root, the other
    component by division, the sign of the imaginary part copied from the
    argument). *)
Definition csqrt (u : complex) : complex :=
  let a := Re u in
  let b := Im u in
  if Req_dec_T a 0 then
    if Req_dec_T b 0 then mkC 0 b
    else let t := sqrt ((a + hypot a b) / 2) in mkC t (b / (2 * t))
  else if Rle_dec 0 a then
    let t := sqrt ((a + hypot a b) / 2) in mkC t (b / (2 * t))
  else
    let t := sqrt ((- a + hypot a b) / 2) in
    mkC (Rabs b / (2 * t)) (if Rlt_dec b 0 then - t else t).

(** ** NumPy scalars: a real or a complex number *)

Inductive num : Set :=
| Float (x : R)
| Complex (u : complex).

Definition to_complex (n : num) : complex :=
  match n with
  | Float x => RtoC x
  | Complex u => u
  end.

(** Binary operations promote to complex as soon as one operand is. *)
Definition num_mul (m n : num) : num :=
  match m, n with
  | Float x, Float y => Float (x * y)
  | _, _ => Complex (Cmul (to_complex m) (to_complex n))
  end.

Definition num_div (m n : num) : num :=
  match m, n with
  | Float x, Float y => Float (x / y)
  | _, _ => Complex (Cdiv (to_complex m) (to_complex n))
  end.

(** [np.lib.scimath.sqrt] on a real scalar: a negative argument is first
    converted to complex. *)
Definition scimath_sqrt (x : R) : num :=
  if Rlt_dec x 0 then Complex (csqrt (RtoC x)) else Float (sqrt x).

(** [np.lib.scimath.sqrt] on a complex scalar: the conversion leaves it as
    it is, and the complex square root applies. *)
Definition scimath_csqrt (u : complex) : complex := csqrt u.

(** ** Python exceptions *)

Inductive py_error : Set :=
| IndexError
| ZeroDivisionError.

Inductive result (A : Type) : Type :=
| Ok (a : A)
| Raise (e : py_error).

Arguments Ok {A} a.
Arguments Raise {A} e.

Definition bind {A B : Type} (m : result A) (k : A -> result B) : result B :=
  match m with
  | Ok a => k a
  | Raise e => Raise e
  end.

Notation "x <- m ;; k" := (bind m (fun x => k))
  (at level 61, m at next level, right associativity).

(** [l[i]] for a constant, non-negative index. *)
Definition getitem (l : list R) (i : nat) : result R :=
  match nth_error l i with
  | Some x => Ok x
  | None => Raise IndexError
  end.

(** [x / y] on Python floats. *)
Definition truediv (x y : R) : result R :=
  if Req_dec_T y 0 then Raise ZeroDivisionError else Ok (x / y).

(** ** [np.linspace(start, stop, num)] *)

Definition set_last (l : list R) (x : R) : list R :=
  removelast l ++ [x].

Definition linspace (start stop : R) (n : nat) : list R :=
  let div := (n - 1)%nat in
  let step := (stop - start) / INR div in
  let y := map (fun k => INR k * step + start) (seq 0 n) in
  if (1 <? n)%nat then set_last y stop else y.

(** ** The material tables *)

Open Scope string_scope.

(** A Python dict literal, in insertion order. *)
Definition dict : Type := list (string * list R).

Fixpoint dict_get (k : string) (t : dict) : option (list R) :=
  match t with
  | [] => None
  | (k', v) :: t' => if String.eqb k k' then Some v else dict_get k t'
  end.

Definition keys (t : dict) : list string := map fst t.

(** Conductors: [sigma_c, mu_r]. *)
Definition MATERIALES_CONDUCTORES : dict :=
  [ ("Aluminio", [3.82e7; 1.0]);
    ("Cobre", [5.80e7; 1.0]);
    ("Oro", [4.10e7; 1.0]);
    ("Plata", [6.17e7; 1.0]);
    ("Hierro", [1.03e7; 500.0]);
    ("Níquel", [1.45e7; 100.0]);
    ("Latón", [1.50e7; 1.0]);
    ("Zinc", [1.67e7; 1.0]);
    ("Tungsteno", [1.82e7; 1.0]) ].

(** Dielectrics: [tan_delta, mu_r, epsilon_r]. *)
Definition MATERIALES_DIELECTRICOS : dict :=
  [ ("Aire", [0; 1.0; 1.0005]);
    ("Alcohol_etílico", [100.00e-3; 1.0; 25.0]);
    ("Oxido_de_aluminio", [0.60e-3; 1.0; 8.8]);
    ("Baquelita", [22.00e-3; 1.0; 4.74]);
    ("Dióxido_de_carbono", [0; 1.0; 1.001]);
    ("Vidrio", [2.00e-3; 1.0; 4.0]);
    ("Hielo", [50.00e-3; 1.0; 4.2]);
    ("Mica", [0.60e-3; 1.0; 5.4]);
    ("Nylon", [20.00e-3; 1.0; 3.5]);
    ("Papel", [8.00e-3; 1.0; 3.0]);
    ("Plexiglás", [30.00e-3; 1.0; 3.45]);
    ("Polietileno", [0.20e-3; 1.0; 2.26]);
    ("Polipropileno", [0.30e-3; 1.0; 2.25]);
    ("Poliestireno", [0.05e-3; 1.0; 2.56]);
    ("Porcelana", [14.00e-3; 1.0; 6.0]);
    ("Vidrio_Pyrex", [0.60e-3; 1.0; 4.0]);
    ("Cuarzo", [0.75e-3; 1.0; 3.8]);
    ("Hule", [2.00e-3; 1.0; 2.5]);
    ("Nieve", [500.00e-3; 1.0; 3.3]);
    ("Tierra_seca", [50.00e-3; 1.0; 2.8]);
    ("Teflon", [0.30e-3; 1.0; 2.1]);
    ("Madera_seca", [10.00e-3; 1.0; 1.5]) ].

Close Scope string_scope.

(** ** The solver *)

(** The tuple [calculate_tem] returns, in its order:
    [gamma, Z0, R, L_unit, C, G, z, V_z, I_z]. *)
Record tem_output : Set := mkOut {
  o_gamma : complex;
  o_Z0 : complex;
  o_R : num;
  o_L_unit : R;
  o_C : R;
  o_G : R;
  o_z : list R;
  o_V_z : list complex;
  o_I_z : list complex
}.

Definition mu0 : R := 4 * PI * 1e-7.
Definition eps0 : R := 8.854e-12.

Definition calculate_tem (f d W : R) (conductor_data dielectric_data : list R)
    (L : R) : result tem_output :=
  let w := 2 * PI * f in
  sigma_c <- getitem conductor_data 0 ;;
  mur_c <- getitem conductor_data 1 ;;
  tan_delta <- getitem dielectric_data 0 ;;
  er <- getitem dielectric_data 2 ;;
  q <- truediv (PI * f * mu0 * mur_c) sigma_c ;;
  let Rs := scimath_sqrt q in
  let R := num_div (num_mul (Float 2) Rs) (Float W) in
  L_unit <- truediv (mu0 * mur_c * d) W ;;
  C <- truediv (eps0 * er * W) d ;;
  let G := w * C * tan_delta in
  let Z := Cadd (to_complex R) (Cmul (Cmul Cj (RtoC w)) (RtoC L_unit)) in
  let Y := Cadd (RtoC G) (Cmul (Cmul Cj (RtoC w)) (RtoC C)) in
  let gamma := scimath_csqrt (Cmul Z Y) in
  let Z0 := scimath_csqrt (Cdiv Z Y) in
  let z := linspace 0 L 500 in
  let V_input := 1.0 in
  let V_z :=
    map (fun zk => Cmul (RtoC V_input) (Cexp (Cmul (Cneg gamma) (RtoC zk)))) z in
  let I_z := map (fun v => Cdiv v Z0) V_z in
  Ok (mkOut gamma Z0 R L_unit C G z V_z I_z).

(** ** The error-free path of the solver *)

(** The tuple [calculate_tem] builds once its four list accesses and three
    float divisions have gone through. *)
Definition tem_values (f d W sigma_c mur_c tan_delta er L : R) : tem_output :=
  let w := 2 * PI * f in
  let Rs := scimath_sqrt (PI * f * mu0 * mur_c / sigma_c) in
  let R := num_div (num_mul (Float 2) Rs) (Float W) in
  let L_unit := mu0 * mur_c * d / W in
  let C := eps0 * er * W / d in
  let G := w * C * tan_delta in
  let Z := Cadd (to_complex R) (Cmul (Cmul Cj (RtoC w)) (RtoC L_unit)) in
  let Y := Cadd (RtoC G) (Cmul (Cmul Cj (RtoC w)) (RtoC C)) in
  let gamma := scimath_csqrt (Cmul Z Y) in
  let Z0 := scimath_csqrt (Cdiv Z Y) in
  let z := linspace 0 L 500 in
  let V_z :=
    map (fun zk => Cmul (RtoC 1.0) (Cexp (Cmul (Cneg gamma) (RtoC zk)))) z in
  let I_z := map (fun v => Cdiv v Z0) V_z in
  mkOut gamma Z0 R L_unit C G z V_z I_z.

(** ** The spec's notion of a principal square root *)

(** [s] is the principal square root of [u]: a square root in the closed
    right half-plane, on the upper half of the imaginary axis when its real
    part vanishes. *)
Definition is_principal_sqrt (s u : complex) : Prop :=
  Cmul s s = u /\ 0 <= Re s /\ (Re s = 0 -> 0 <= Im s).

(** ** The valid-input domain *)

(** The documented domain of the solver: positive frequency, geometry and
    conductivity, conductor permeability at least one, non-negative loss
    tangent, positive permittivity. *)
Definition valid_input (f d W L sigma_c mur_c tan_delta er : R) : Prop :=
  0 < f /\ 0 < d /\ 0 < W /\ 0 < L /\ 0 < sigma_c /\
  1 <= mur_c /\ 0 <= tan_delta /\ 0 < er.

(** ** The caller of the solver

    The script below [calculate_tem] reads its inputs from widgets, calls
    the solver inside a [try] block and derives the plotted and displayed
    quantities from the returned tuple. *)

(** The ranges the widgets enforce: the frequency slider runs from [1e6] to
    [10e9], the phase slider from [0] to [2*pi], and the three
    [number_input] fields have the minimal values [1e-6], [1e-3] and
    [0.001]. *)
Definition widget_ranges (f t_fase d W L : R) : Prop :=
  1e6 <= f <= 10e9 /\ 0 <= t_fase <= 2 * PI /\
  1e-6 <= d /\ 1e-3 <= W /\ 0.001 <= L.

(** ** Inputs that keep binary64 arithmetic in range

    A box of inputs inside which no product, quotient or sum formed by lines
    61 to 98 of [calculate_tem] overflows in binary64, and inside which the
    susceptance [omega * C] does not underflow to zero: with every parameter
    between [1e-30] and [1e30] the largest magnitude formed,
    [omega * L_unit * G], stays below [1e256], and [omega * C] above
    [1e-131] ([moderate_magnitudes]). *)
Definition moderate_input (f d W sigma_c mur_c tan_delta er : R) : Prop :=
  1e-30 <= f <= 1e30 /\ 1e-30 <= d <= 1e30 /\ 1e-30 <= W <= 1e30 /\
  1e-30 <= sigma_c <= 1e30 /\ mur_c <= 1e30 /\ tan_delta <= 1e30 /\
  1e-30 <= er <= 1e30.

(** ** The binary64 layer

    Lines 61 to 106 of [calculate_tem] on Rocq's primitive
    binary64 floats, whose [+], [-], [*], [/] and [sqrt] are the IEEE 754
    operations, rounded to nearest even, that Python and NumPy perform.
    Complex products are the four-multiplication formula of CPython and of
    NumPy's loops; a real operand is promoted to a complex number with a
    zero imaginary part first.

    Two C-library functions are on the way, the complex square root behind
    [np.sqrt] and the complex exponential behind [np.exp].  They are given
    on special values only, as C99 Annex G fixes them; elsewhere their
    rounding is the library's own and the functions below answer [None].
    NumPy's complex division is given on zero and NaN divisors only. *)
Module B64.

Import PrimFloat.
#[local] Set Warnings "-inexact-float".
#[local] Open Scope bool_scope.
#[local] Open Scope float_scope.

Record cfloat : Set := mkCF { re64 : float; im64 : float }.

(** A real promoted to a complex number. *)
Definition of_real (x : float) : cfloat := mkCF x 0.

(** The Python literal [1j]. *)
Definition j64 : cfloat := mkCF 0 1.

Definition cadd64 (u v : cfloat) : cfloat :=
  mkCF (re64 u + re64 v) (im64 u + im64 v).

Definition cneg64 (u : cfloat) : cfloat :=
  mkCF (- re64 u) (- im64 u).

Definition cmul64 (u v : cfloat) : cfloat :=
  mkCF (re64 u * re64 v - im64 u * im64 v)
       (re64 u * im64 v + im64 u * re64 v).

Definition finite64 (u : cfloat) : bool :=
  is_finite (re64 u) && is_finite (im64 u).

(** [np.pi] *)
Definition pi64 : float := 3.141592653589793.

(** The complex square root on arguments with an infinite imaginary part or
    a NaN component, and at zero (C99 G.6.4.2):
    [csqrt(x + i inf) = inf + i inf] for every [x], NaN included;
    [csqrt(NaN + iy) = NaN + iNaN];
    [csqrt(-inf + iNaN) = NaN +- i inf], the sign being unspecified ([+] is
    taken here);
    [csqrt(+inf + iNaN) = inf + iNaN];
    [csqrt(x + iNaN) = NaN + iNaN] for finite [x];
    and at a zero, [csqrt(+-0 + i0) = 0 + i0] and, by conjugation,
    [csqrt(+-0 - i0) = 0 - i0]. *)
Definition csqrt64 (u : cfloat) : option cfloat :=
  let a := re64 u in
  let b := im64 u in
  if is_zero a && is_zero b then Some (mkCF 0 b)
  else if is_infinity b then Some (mkCF infinity b)
  else if is_nan a then Some (mkCF nan nan)
  else if is_nan b then
    if is_infinity a then
      if a <? 0 then Some (mkCF nan infinity) else Some (mkCF infinity nan)
    else Some (mkCF nan nan)
  else None.

(** The complex exponential at a zero and at NaN (C99 G.6.3.1):
    [cexp(+-0 + i0) = 1 + i0] and, by conjugation, [cexp(+-0 - i0) = 1 - i0];
    [cexp(NaN + iNaN) = NaN + iNaN]. *)
Definition cexp64 (u : cfloat) : option cfloat :=
  if is_nan (re64 u) && is_nan (im64 u) then Some (mkCF nan nan)
  else if is_zero (re64 u) && is_zero (im64 u) then Some (mkCF 1 (im64 u))
  else None.

(** NumPy's complex division, on two kinds of operands only: a divisor with
    a NaN component gives [NaN + NaN j], since every operation of the
    quotient formula then meets a NaN; a zero divided by a zero gives
    [NaN + NaN j], the two components being [0/0]. *)
Definition cdiv64 (u v : cfloat) : option cfloat :=
  if is_nan (re64 v) || is_nan (im64 v) then Some (mkCF nan nan)
  else if is_zero (re64 v) && is_zero (im64 v)
          && is_zero (re64 u) && is_zero (im64 u)
  then Some (mkCF nan nan)
  else None.

Definition mu0_64 : float := 4 * pi64 * 1e-7.
Definition eps0_64 : float := 8.854e-12.

(** Lines 80 and 83. *)
Definition L_unit_b64 (d W mur_c : float) : float := mu0_64 * mur_c * d / W.
Definition C_b64 (d W er : float) : float := eps0_64 * er * W / d.

(** The impedance [Z] and the admittance [Y] of lines 91 and 92, from the
    inputs, for a real surface resistance; [None] where Python raises
    [ZeroDivisionError] and where [Rs] is complex. *)
Definition line_Z_Y (f d W sigma_c mur_c tan_delta er : float)
    : option (cfloat * cfloat) :=
  let w := 2 * pi64 * f in
  if (sigma_c =? 0) || (W =? 0) || (d =? 0) then None
  else
    let q := (pi64 * f * mu0_64 * mur_c) / sigma_c in
    if q <? 0 then None
    else
      let Rs := sqrt q in
      let R := (2 * Rs) / W in
      let L_unit := L_unit_b64 d W mur_c in
      let C := C_b64 d W er in
      let G := w * C * tan_delta in
      let Z := cadd64 (of_real R) (cmul64 (cmul64 j64 (of_real w)) (of_real L_unit)) in
      let Y := cadd64 (of_real G) (cmul64 (cmul64 j64 (of_real w)) (of_real C)) in
      Some (Z, Y).

(** The product [Z * Y] of line 95. *)
Definition line_ZY (f d W sigma_c mur_c tan_delta er : float) : option cfloat :=
  match line_Z_Y f d W sigma_c mur_c tan_delta er with
  | Some (Z, Y) => Some (cmul64 Z Y)
  | None => None
  end.

(** [gamma = np.lib.scimath.sqrt(Z * Y)] *)
Definition gamma_b64 (f d W sigma_c mur_c tan_delta er : float) : option cfloat :=
  match line_ZY f d W sigma_c mur_c tan_delta er with
  | Some zy => csqrt64 zy
  | None => None
  end.

(** [Z0 = np.lib.scimath.sqrt(Z / Y)] *)
Definition Z0_b64 (f d W sigma_c mur_c tan_delta er : float) : option cfloat :=
  match line_Z_Y f d W sigma_c mur_c tan_delta er with
  | Some (Z, Y) =>
      match cdiv64 Z Y with
      | Some q => csqrt64 q
      | None => None
      end
  | None => None
  end.

(** One element of [V_z = V_input * np.exp(-gamma * z)], at the axis point
    [zk], with [V_input = 1.0]. *)
Definition Vk_b64 (gamma : cfloat) (zk : float) : option cfloat :=
  match cexp64 (cmul64 (cneg64 gamma) (of_real zk)) with
  | Some e => Some (cmul64 (of_real 1.0) e)
  | None => None
  end.

(** The first element, at [z[0] = 0.0]. *)
Definition V0_b64 (gamma : cfloat) : option cfloat := Vk_b64 gamma 0.

(** One element of [I_z = V_z / Z0]. *)
Definition Ik_b64 (v Z0 : cfloat) : option cfloat := cdiv64 v Z0.

(** A zero of either sign. *)
Definition signed_zero (x : float) : Prop := x = zero \/ x = neg_zero.

(** The valid-input domain and the widget ranges, as comparisons on
    floats. *)
Definition valid_b64 (f d W L sigma_c mur_c tan_delta er : float) : bool :=
  (0 <? f) && (0 <? d) && (0 <? W) && (0 <? L) && (0 <? sigma_c) &&
  (1 <=? mur_c) && (0 <=? tan_delta) && (0 <? er).

Definition widget_b64 (f d W L : float) : bool :=
  (1e6 <=? f) && (f <=? 10e9) && (1e-6 <=? d) && (1e-3 <=? W) && (0.001 <=? L).

End B64.

(** * Properties *)

(** ** Complex arithmetic *)

Lemma complex_eq (u v : complex) : Re u = Re v -> Im u = Im v -> u = v.
Proof. destruct u, v; simpl; intros -> ->; reflexivity. Qed.

Lemma hypot_nonneg (a b : R) : 0 <= hypot a b.
Proof. apply sqrt_pos. Qed.

Lemma hypot_sqr (a b : R) : hypot a b * hypot a b = a * a + b * b.
Proof. unfold hypot. apply sqrt_sqrt. nra. Qed.

Lemma hypot_ge_abs (a b : R) : - hypot a b <= a <= hypot a b.
Proof.
  pose proof (hypot_nonneg a b) as Hh.
  pose proof (hypot_sqr a b) as Hs.
  split; nra.
Qed.

Lemma hypot_pos (a b : R) : a <> 0 \/ b <> 0 -> 0 < hypot a b.
Proof.
  intros Hab.
  pose proof (hypot_nonneg a b) as Hh.
  pose proof (hypot_sqr a b) as Hs.
  destruct (Req_dec (hypot a b) 0) as [H0 | H0]; [| lra].
  rewrite H0 in Hs. exfalso. destruct Hab; nra.
Qed.

(** The half-sum under the square root of [csqrt] is positive off zero. *)
Lemma half_sum_pos (a b : R) :
  0 <= a -> a <> 0 \/ b <> 0 -> 0 < (a + hypot a b) / 2.
Proof.
  intros Ha Hab. pose proof (hypot_pos a b Hab). lra.
Qed.

Lemma half_diff_pos (a b : R) : a < 0 -> 0 < (- a + hypot a b) / 2.
Proof.
  intros Ha. pose proof (hypot_nonneg a b). lra.
Qed.

(** What the right half-plane branch of [csqrt] squares to. *)
Lemma csqrt_branch_right (a b : R) :
  0 <= a -> a <> 0 \/ b <> 0 ->
  let t := sqrt ((a + hypot a b) / 2) in
  0 < t /\ t * t - b / (2 * t) * (b / (2 * t)) = a
        /\ t * (b / (2 * t)) + b / (2 * t) * t = b.
Proof.
  intros Ha Hab t.
  pose proof (half_sum_pos a b Ha Hab) as Hs.
  assert (Ht : 0 < t) by (apply sqrt_lt_R0; exact Hs).
  assert (Htt : t * t = (a + hypot a b) / 2)
    by (apply sqrt_sqrt; lra).
  pose proof (hypot_sqr a b) as Hh.
  split; [exact Ht |].
  split.
  - assert (E : b / (2 * t) * (b / (2 * t)) = b * b / (4 * (t * t)))
      by (field; lra).
    rewrite E, Htt.
    assert (Eb : b * b = (hypot a b - a) * (hypot a b + a)) by nra.
    rewrite Eb. field. lra.
  - field. lra.
Qed.

(** What the left half-plane branch of [csqrt] squares to. *)
Lemma csqrt_branch_left (a b : R) :
  a < 0 ->
  let t := sqrt ((- a + hypot a b) / 2) in
  let s := if Rlt_dec b 0 then - t else t in
  0 < t /\ Rabs b / (2 * t) * (Rabs b / (2 * t)) - s * s = a
        /\ Rabs b / (2 * t) * s + s * (Rabs b / (2 * t)) = b.
Proof.
  intros Ha t s.
  pose proof (half_diff_pos a b Ha) as Hs.
  assert (Ht : 0 < t) by (apply sqrt_lt_R0; exact Hs).
  assert (Htt : t * t = (- a + hypot a b) / 2)
    by (apply sqrt_sqrt; lra).
  pose proof (hypot_sqr a b) as Hh.
  split; [exact Ht |].
  assert (Hss : s * s = t * t)
    by (unfold s; destruct (Rlt_dec b 0); ring).
  assert (Habs : Rabs b * Rabs b = b * b).
  { unfold Rabs. destruct (Rcase_abs b); ring. }
  split.
  - assert (E : Rabs b / (2 * t) * (Rabs b / (2 * t))
                = Rabs b * Rabs b / (4 * (t * t))) by (field; lra).
    rewrite E, Hss, Habs, Htt.
    assert (Eb : b * b = (hypot a b - a) * (hypot a b + a)) by nra.
    rewrite Eb. field. lra.
  - unfold s. destruct (Rlt_dec b 0) as [Hb | Hb].
    + rewrite (Rabs_left b Hb). field. lra.
    + rewrite (Rabs_right b) by lra. field. lra.
Qed.

(** [csqrt] is a square root. *)
Lemma csqrt_sqr (u : complex) : Cmul (csqrt u) (csqrt u) = u.
Proof.
  destruct u as [a b]. unfold csqrt, Cmul. simpl.
  destruct (Req_dec_T a 0) as [Ha0 | Ha0].
  - destruct (Req_dec_T b 0) as [Hb0 | Hb0].
    + simpl. subst. apply complex_eq; simpl; ring.
    + destruct (csqrt_branch_right a b) as (_ & Hre & Him);
        [lra | right; exact Hb0 |].
      simpl. apply complex_eq; simpl; assumption.
  - destruct (Rle_dec 0 a) as [Hle | Hlt].
    + destruct (csqrt_branch_right a b) as (_ & Hre & Him);
        [exact Hle | left; exact Ha0 |].
      simpl. apply complex_eq; simpl; assumption.
    + destruct (csqrt_branch_left a b) as (_ & Hre & Him); [lra |].
      simpl. apply complex_eq; simpl; assumption.
Qed.

(** [csqrt] lands in the closed right half-plane. *)
Lemma csqrt_re_nonneg (u : complex) : 0 <= Re (csqrt u).
Proof.
  destruct u as [a b]. unfold csqrt. simpl.
  destruct (Req_dec_T a 0) as [Ha0 | Ha0].
  - destruct (Req_dec_T b 0); simpl; [lra | apply sqrt_pos].
  - destruct (Rle_dec 0 a) as [Hle | Hlt]; simpl; [apply sqrt_pos |].
    destruct (csqrt_branch_left a b) as (Ht & _); [lra |].
    apply Rmult_le_pos; [apply Rabs_pos |].
    left. apply Rinv_0_lt_compat. lra.
Qed.

(** On the imaginary axis [csqrt] takes the upper half. *)
Lemma csqrt_im_nonneg (u : complex) : Re (csqrt u) = 0 -> 0 <= Im (csqrt u).
Proof.
  destruct u as [a b]. unfold csqrt. simpl.
  destruct (Req_dec_T a 0) as [Ha0 | Ha0].
  - destruct (Req_dec_T b 0) as [Hb0 | Hb0]; simpl; [lra |].
    destruct (csqrt_branch_right a b) as (Ht & _);
      [lra | right; exact Hb0 |].
    intros H0. simpl in Ht. lra.
  - destruct (Rle_dec 0 a) as [Hle | Hlt]; simpl.
    + destruct (csqrt_branch_right a b) as (Ht & _);
        [exact Hle | left; exact Ha0 |].
      intros H0. simpl in Ht. lra.
    + destruct (csqrt_branch_left a b) as (Ht & _); [lra |].
      simpl in Ht. intros H0.
      destruct (Rlt_dec b 0) as [Hb | Hb]; [| lra].
      exfalso.
      assert (Hq : 0 < Rabs b / (2 * sqrt ((- a + hypot a b) / 2))).
      { apply Rdiv_lt_0_compat; [apply Rabs_pos_lt; lra | lra]. }
      lra.
Qed.

(** ** [np.linspace] *)

Lemma nth_map_seq (g : nat -> R) (n k : nat) (dflt : R) :
  (k < n)%nat -> nth k (map g (seq 0 n)) dflt = g k.
Proof.
  intros Hk.
  rewrite (nth_indep _ dflt (g 0%nat))
    by (rewrite length_map, length_seq; exact Hk).
  rewrite map_nth, seq_nth by exact Hk. reflexivity.
Qed.

Section Linspace.

Variables start stop : R.
Variable m : nat.

(** The step between two points when [m + 2] points are asked for. *)
Let step : R := (stop - start) / INR (S m).

Lemma linspace_unfold :
  linspace start stop (S (S m))
  = map (fun k => INR k * step + start) (seq 0 (S m)) ++ [stop].
Proof.
  unfold linspace, set_last.
  replace (1 <? S (S m))%nat with true
    by (symmetry; apply Nat.ltb_lt; lia).
  replace (S (S m) - 1)%nat with (S m) by lia.
  rewrite (seq_S (S m) 0), map_app. simpl map at 2.
  rewrite removelast_last. reflexivity.
Qed.

Lemma linspace_length : List.length (linspace start stop (S (S m))) = S (S m).
Proof.
  rewrite linspace_unfold, length_app, length_map, length_seq.
  simpl. lia.
Qed.

Lemma linspace_nth_inner (k : nat) :
  (k < S m)%nat ->
  nth k (linspace start stop (S (S m))) 0 = INR k * step + start.
Proof.
  intros Hk. rewrite linspace_unfold.
  rewrite app_nth1 by (rewrite length_map, length_seq; exact Hk).
  apply nth_map_seq. exact Hk.
Qed.

Lemma linspace_nth_last :
  nth (S m) (linspace start stop (S (S m))) 0 = stop.
Proof.
  rewrite linspace_unfold.
  rewrite app_nth2 by (rewrite length_map, length_seq; lia).
  rewrite length_map, length_seq, Nat.sub_diag. reflexivity.
Qed.

(** The overwritten end point lies on the same grid as the others. *)
Lemma linspace_nth (k : nat) :
  (k < S (S m))%nat ->
  nth k (linspace start stop (S (S m))) 0 = INR k * step + start.
Proof.
  intros Hk.
  destruct (Nat.eq_dec k (S m)) as [-> | Hne].
  - rewrite linspace_nth_last. unfold step.
    assert (Hm : INR (S m) <> 0) by (apply not_0_INR; lia).
    field. exact Hm.
  - apply linspace_nth_inner. lia.
Qed.

End Linspace.

(** ** The error-free path of the solver *)

Lemma truediv_ok (x y : R) : y <> 0 -> truediv x y = Ok (x / y).
Proof.
  intros Hy. unfold truediv. destruct (Req_dec_T y 0); [contradiction | reflexivity].
Qed.

Lemma truediv_zero (x : R) : truediv x 0 = Raise ZeroDivisionError.
Proof.
  unfold truediv. destruct (Req_dec_T 0 0); [reflexivity | contradiction].
Qed.

Lemma calculate_tem_ok (f d W sigma_c mur_c tan_delta mur_d er L : R) :
  sigma_c <> 0 -> W <> 0 -> d <> 0 ->
  calculate_tem f d W [sigma_c; mur_c] [tan_delta; mur_d; er] L
  = Ok (tem_values f d W sigma_c mur_c tan_delta er L).
Proof.
  intros Hs HW Hd. unfold calculate_tem.
  cbn [getitem nth_error bind].
  rewrite (truediv_ok _ sigma_c Hs). cbn [bind].
  rewrite (truediv_ok _ W HW). cbn [bind].
  rewrite (truediv_ok _ d Hd). cbn [bind].
  reflexivity.
Qed.

(** Conversely, a returned tuple is the one of the error-free path, and the
    three divisors were not zero. *)
Lemma calculate_tem_inv (f d W : R) (cd dd : list R) (L : R) (out : tem_output) :
  calculate_tem f d W cd dd L = Ok out ->
  exists sigma_c mur_c tan_delta er,
    nth_error cd 0 = Some sigma_c /\ nth_error cd 1 = Some mur_c /\
    nth_error dd 0 = Some tan_delta /\ nth_error dd 2 = Some er /\
    sigma_c <> 0 /\ W <> 0 /\ d <> 0 /\
    out = tem_values f d W sigma_c mur_c tan_delta er L.
Proof.
  unfold calculate_tem, getitem, truediv.
  destruct (nth_error cd 0) as [sigma_c |]; cbn [bind]; [| discriminate].
  destruct (nth_error cd 1) as [mur_c |]; cbn [bind]; [| discriminate].
  destruct (nth_error dd 0) as [tan_delta |]; cbn [bind]; [| discriminate].
  destruct (nth_error dd 2) as [er |]; cbn [bind]; [| discriminate].
  destruct (Req_dec_T sigma_c 0) as [| Hs]; cbn [bind]; [discriminate |].
  destruct (Req_dec_T W 0) as [| HW]; cbn [bind]; [discriminate |].
  destruct (Req_dec_T d 0) as [| Hd]; cbn [bind]; [discriminate |].
  intros H. injection H as <-.
  exists sigma_c, mur_c, tan_delta, er.
  repeat (split; [first [reflexivity | assumption] |]).
  reflexivity.
Qed.

(** ** Helper facts on the solver's intermediate values *)

Lemma mu0_pos : 0 < mu0.
Proof. unfold mu0. pose proof PI_RGT_0. lra. Qed.

Lemma eps0_pos : 0 < eps0.
Proof. unfold eps0. lra. Qed.

Lemma scimath_sqrt_nonneg (x : R) : 0 <= x -> scimath_sqrt x = Float (sqrt x).
Proof.
  intros Hx. unfold scimath_sqrt. destruct (Rlt_dec x 0); [lra | reflexivity].
Qed.

(** The square root of a negative real is on the positive imaginary axis. *)
Lemma scimath_sqrt_neg (x : R) :
  x < 0 -> scimath_sqrt x = Complex (mkC 0 (sqrt (- x))).
Proof.
  intros Hx. unfold scimath_sqrt. destruct (Rlt_dec x 0) as [_ | Hn]; [| lra].
  f_equal. unfold csqrt, RtoC. simpl.
  destruct (Req_dec_T x 0) as [H0 | _]; [lra |].
  destruct (Rle_dec 0 x) as [Hle | _]; [lra |].
  destruct (Rlt_dec 0 0) as [H00 | _]; [lra |].
  assert (Hh : hypot x 0 = - x).
  { unfold hypot. replace (x * x + 0 * 0) with ((- x) * (- x)) by ring.
    apply sqrt_square. lra. }
  rewrite Hh. replace ((- x + - x) / 2) with (- x) by lra.
  rewrite Rabs_R0. apply complex_eq; simpl; [| reflexivity].
  unfold Rdiv. ring.
Qed.

(** The argument of the surface-resistance square root. *)
Lemma Rs_arg_sign (f sigma_c mur_c : R) :
  0 < f -> 0 < sigma_c ->
  (0 <= mur_c -> 0 <= PI * f * mu0 * mur_c / sigma_c) /\
  (mur_c < 0 -> PI * f * mu0 * mur_c / sigma_c < 0).
Proof.
  intros Hf Hs.
  pose proof PI_RGT_0 as Hpi. pose proof mu0_pos as Hmu.
  assert (Hk : 0 < PI * f * mu0).
  { apply Rmult_lt_0_compat; [apply Rmult_lt_0_compat |]; assumption. }
  assert (Hi : 0 < / sigma_c) by (apply Rinv_0_lt_compat; exact Hs).
  unfold Rdiv. split; intros Hm.
  - apply Rmult_le_pos; [apply Rmult_le_pos |]; lra.
  - assert (0 < PI * f * mu0 * (- mur_c) * / sigma_c).
    { apply Rmult_lt_0_compat; [apply Rmult_lt_0_compat |]; lra. }
    lra.
Qed.


(** ** Principal square roots *)

Lemma csqrt_principal (u : complex) : is_principal_sqrt (csqrt u) u.
Proof.
  split; [apply csqrt_sqr |].
  split; [apply csqrt_re_nonneg | apply csqrt_im_nonneg].
Qed.

(** The three conditions leave one candidate only. *)
Lemma principal_sqrt_unique (s s' u : complex) :
  is_principal_sqrt s u -> is_principal_sqrt s' u -> s = s'.
Proof.
  destruct s as [x y], s' as [x' y'], u as [a b].
  unfold is_principal_sqrt, Cmul. simpl.
  intros (E & Hx & Hy) (E' & Hx' & Hy').
  injection E as Ea Eb. injection E' as Ea' Eb'.
  assert (Hsum : x * x + y * y = x' * x' + y' * y').
  { assert (Hq : (x * x + y * y) * (x * x + y * y)
                 = (x' * x' + y' * y') * (x' * x' + y' * y')).
    { replace ((x * x + y * y) * (x * x + y * y))
        with ((x * x - y * y) * (x * x - y * y)
              + (x * y + y * x) * (x * y + y * x)) by ring.
      replace ((x' * x' + y' * y') * (x' * x' + y' * y'))
        with ((x' * x' - y' * y') * (x' * x' - y' * y')
              + (x' * y' + y' * x') * (x' * y' + y' * x')) by ring.
      rewrite Ea, Eb, Ea', Eb'. reflexivity. }
    assert (H1 : 0 <= x * x + y * y) by nra.
    assert (H2 : 0 <= x' * x' + y' * y') by nra.
    apply (Rsqr_inj _ _ H1 H2). exact Hq. }
  assert (Hxx : x * x = x' * x') by lra.
  assert (Hxe : x = x') by nra.
  subst x'. 
  destruct (Req_dec x 0) as [Hz | Hnz].
  - subst x. specialize (Hy eq_refl). specialize (Hy' eq_refl).
    apply complex_eq; simpl; [reflexivity | nra].
  - apply complex_eq; simpl; [reflexivity |].
    apply (Rmult_eq_reg_l x); [nra | exact Hnz].
Qed.

(** ** The valid-input domain *)

(** Copper plates, air gap, 6 GHz, 5 mm by 100 mm, 10 m long. *)
Lemma valid_copper_air : valid_input 6e9 0.005 0.1 10 5.80e7 1.0 0 1.0005.
Proof. unfold valid_input. repeat split; lra. Defined.

Section ValidInput.

Variables f d W L sigma_c mur_c tan_delta er : R.
Hypothesis Hvalid : valid_input f d W L sigma_c mur_c tan_delta er.

Let w : R := 2 * PI * f.
Let out : tem_output := tem_values f d W sigma_c mur_c tan_delta er L.

Lemma valid_w_pos : 0 < w.
Proof.
  destruct Hvalid as (Hf & _). unfold w. pose proof PI_RGT_0.
  apply Rmult_lt_0_compat; lra.
Qed.

Lemma valid_R_real :
  o_R out = Float (2 * sqrt (PI * f * mu0 * mur_c / sigma_c) / W).
Proof.
  destruct Hvalid as (Hf & _ & _ & _ & Hs & Hm & _).
  unfold out, tem_values. cbn [o_R].
  destruct (Rs_arg_sign f sigma_c mur_c Hf Hs) as (Hq & _).
  rewrite scimath_sqrt_nonneg by (apply Hq; lra).
  reflexivity.
Qed.


Lemma valid_C_pos : 0 < o_C out.
Proof.
  destruct Hvalid as (_ & Hd & HW & _ & _ & _ & _ & He).
  unfold out, tem_values. cbn [o_C]. pose proof eps0_pos.
  apply Rdiv_lt_0_compat; [| exact Hd].
  apply Rmult_lt_0_compat; [apply Rmult_lt_0_compat |]; lra.
Qed.

(** The series impedance and shunt admittance, in components. *)
Lemma valid_Z_components (r : R) :
  o_R out = Float r ->
  Cadd (to_complex (o_R out)) (Cmul (Cmul Cj (RtoC w)) (RtoC (o_L_unit out)))
  = mkC r (w * o_L_unit out).
Proof.
  intros ->. unfold Cadd, Cmul, Cj, RtoC. simpl.
  apply complex_eq; simpl; ring.
Qed.

Lemma Y_components (G C : R) :
  Cadd (RtoC G) (Cmul (Cmul Cj (RtoC w)) (RtoC C)) = mkC G (w * C).
Proof.
  unfold Cadd, Cmul, Cj, RtoC. simpl. apply complex_eq; simpl; ring.
Qed.

Lemma valid_gamma_Z0 (r : R) :
  o_R out = Float r ->
  o_gamma out
  = csqrt (Cmul (mkC r (w * o_L_unit out)) (mkC (o_G out) (w * o_C out))) /\
  o_Z0 out
  = csqrt (Cdiv (mkC r (w * o_L_unit out)) (mkC (o_G out) (w * o_C out))).
Proof.
  intros Hr.
  rewrite <- (valid_Z_components r Hr), <- (Y_components (o_G out) (o_C out)).
  unfold out, tem_values, scimath_csqrt. cbn [o_gamma o_Z0 o_R o_L_unit o_G o_C].
  split; reflexivity.
Qed.


End ValidInput.

(** ** Magnitudes on moderate inputs *)

Lemma mul_bounds (a b al au bl bu : R) :
  0 <= al -> al <= a <= au -> 0 <= bl -> bl <= b <= bu ->
  al * bl <= a * b <= au * bu.
Proof.
  intros Hal (Ha1 & Ha2) Hbl (Hb1 & Hb2).
  split; apply Rmult_le_compat; lra.
Qed.

Lemma div_bounds (a b al au bl bu : R) :
  0 <= al -> al <= a <= au -> 0 < bl -> bl <= b <= bu ->
  al / bu <= a / b <= au / bl.
Proof.
  intros Hal (Ha1 & Ha2) Hbl (Hb1 & Hb2).
  assert (Hi : / bu <= / b <= / bl).
  { split; apply Rinv_le_contravar; lra. }
  assert (0 < / bu) by (apply Rinv_0_lt_compat; lra).
  unfold Rdiv. apply mul_bounds; lra.
Qed.

Lemma PI_bounds : 3 <= PI <= 4.
Proof. pose proof PI2_3_2. pose proof PI_4. lra. Qed.

(** The exact values behind [Z] and [Y] on a valid input of the box
    [moderate_input]: the resistance and the reactance are positive, the
    conductance is not negative, the susceptance is at least [1e-131], and
    none of the four products that make [Z * Y] exceeds [1e256], far below
    the largest binary64 number. *)
Lemma moderate_magnitudes (f d W L sigma_c mur_c tan_delta er : R) :
  valid_input f d W L sigma_c mur_c tan_delta er ->
  moderate_input f d W sigma_c mur_c tan_delta er ->
  let r := 2 * sqrt (PI * f * mu0 * mur_c / sigma_c) / W in
  let X := 2 * PI * f * (mu0 * mur_c * d / W) in
  let B := 2 * PI * f * (eps0 * er * W / d) in
  let G := 2 * PI * f * (eps0 * er * W / d) * tan_delta in
  0 < r <= 2e73 /\ 0 < X <= 2e115 /\ 1e-131 <= B <= 1e110 /\
  0 <= G <= 1e140 /\
  r * G <= 1e256 /\ X * B <= 1e256 /\ r * B <= 1e256 /\ X * G <= 1e256.
Proof.
  intros (Hf & Hd & HW & HL & Hs & Hm & Ht & He)
         (Bf & Bd & BW & Bs & Bm & Bt & Be).
  pose proof PI_bounds as Hpi.
  assert (Hmu0 : 12e-7 <= mu0 <= 16e-7).
  { unfold mu0.
    pose proof (mul_bounds (4 * PI) 1e-7 12 16 1e-7 1e-7) as H.
    lra. }
  assert (Hw : 6e-30 <= 2 * PI * f <= 8e30).
  { pose proof (mul_bounds (2 * PI) f 6 8 1e-30 1e30) as H. lra. }
  (* the surface-resistance argument *)
  assert (H1 : 3e-30 <= PI * f <= 4e30).
  { pose proof (mul_bounds PI f 3 4 1e-30 1e30) as H. lra. }
  assert (H2 : 36e-37 <= PI * f * mu0 <= 64e23).
  { pose proof (mul_bounds (PI * f) mu0 3e-30 4e30 12e-7 16e-7) as H. lra. }
  assert (H3 : 36e-37 <= PI * f * mu0 * mur_c <= 64e53).
  { pose proof (mul_bounds (PI * f * mu0) mur_c 36e-37 64e23 1 1e30) as H.
    lra. }
  assert (H4 : 36e-67 <= PI * f * mu0 * mur_c / sigma_c <= 64e83).
  { pose proof (div_bounds (PI * f * mu0 * mur_c) sigma_c
                  36e-37 64e53 1e-30 1e30) as H. lra. }
  assert (Hsq : 0 < sqrt (PI * f * mu0 * mur_c / sigma_c) <= 1e43).
  { split; [apply sqrt_lt_R0; lra |].
    replace 1e43 with (sqrt (1e43 * 1e43)) by (apply sqrt_square; lra).
    apply sqrt_le_1_alt. lra. }
  assert (Hr : 0 < 2 * sqrt (PI * f * mu0 * mur_c / sigma_c) / W <= 2e73).
  { pose proof (div_bounds (2 * sqrt (PI * f * mu0 * mur_c / sigma_c)) W
                  0 2e43 1e-30 1e30) as H.
    split; [apply Rdiv_lt_0_compat; lra | lra]. }
  (* the inductance and the reactance *)
  assert (H5 : 12e-7 <= mu0 * mur_c <= 16e23).
  { pose proof (mul_bounds mu0 mur_c 12e-7 16e-7 1 1e30) as H. lra. }
  assert (H6 : 12e-37 <= mu0 * mur_c * d <= 16e53).
  { pose proof (mul_bounds (mu0 * mur_c) d 12e-7 16e23 1e-30 1e30) as H.
    lra. }
  assert (H7 : 12e-67 <= mu0 * mur_c * d / W <= 16e83).
  { pose proof (div_bounds (mu0 * mur_c * d) W 12e-37 16e53 1e-30 1e30) as H.
    lra. }
  assert (HX : 72e-97 <= 2 * PI * f * (mu0 * mur_c * d / W) <= 128e113).
  { pose proof (mul_bounds (2 * PI * f) (mu0 * mur_c * d / W)
                  6e-30 8e30 12e-67 16e83) as H. lra. }
  (* the capacitance, the susceptance and the conductance *)
  assert (H8 : 8.854e-42 <= eps0 * er <= 8.854e18).
  { unfold eps0.
    pose proof (mul_bounds 8.854e-12 er 8.854e-12 8.854e-12 1e-30 1e30) as H.
    lra. }
  assert (H9 : 8.854e-72 <= eps0 * er * W <= 8.854e48).
  { pose proof (mul_bounds (eps0 * er) W 8.854e-42 8.854e18 1e-30 1e30) as H.
    lra. }
  assert (H10 : 8.854e-102 <= eps0 * er * W / d <= 8.854e78).
  { pose proof (div_bounds (eps0 * er * W) d 8.854e-72 8.854e48 1e-30 1e30)
      as H. lra. }
  assert (HB : 1e-131 <= 2 * PI * f * (eps0 * er * W / d) <= 1e110).
  { pose proof (mul_bounds (2 * PI * f) (eps0 * er * W / d)
                  6e-30 8e30 8.854e-102 8.854e78) as H. lra. }
  assert (HG : 0 <= 2 * PI * f * (eps0 * er * W / d) * tan_delta <= 1e140).
  { pose proof (mul_bounds (2 * PI * f * (eps0 * er * W / d)) tan_delta
                  0 1e110 0 1e30) as H. lra. }
  intros r X B G. fold r in Hr. fold X in HX. fold B in HB. fold G in HG.
  split; [exact Hr |]. split; [lra |]. split; [exact HB |].
  split; [exact HG |].
  split; [pose proof (mul_bounds r G 0 2e73 0 1e140); lra |].
  split; [pose proof (mul_bounds X B 0 128e113 0 1e110); lra |].
  split; [pose proof (mul_bounds r B 0 2e73 0 1e110); lra |].
  pose proof (mul_bounds X G 0 128e113 0 1e140). lra.
Qed.

(** * The claims *)

(** C1: for positive frequency, separation, width and conductivity, the
    call returns, and its per-unit-length parameters are the reference
    formulas: [R = 2*sqrt(pi*f*mu0*mur_c/sigma_c)/W] under the complex-domain
    square root (a real number as soon as [mur_c] is not negative, a number
    on the imaginary axis otherwise), [L_unit = mu0*mur_c*d/W],
    [C = eps0*er*W/d] and [G = 2*pi*f*C*tan_delta], with [mu0 = 4*pi*1e-7]
    and [eps0 = 8.854e-12]. *)
Theorem rlcg_reference_formulas
    (f d W sigma_c mur_c tan_delta mur_d er L : R) :
  0 < f -> 0 < d -> 0 < W -> 0 < sigma_c ->
  exists out,
    calculate_tem f d W [sigma_c; mur_c] [tan_delta; mur_d; er] L = Ok out /\
    o_R out
    = num_div
        (num_mul (Float 2)
           (scimath_sqrt (PI * f * (4 * PI * 1e-7) * mur_c / sigma_c)))
        (Float W) /\
    (0 <= mur_c ->
     o_R out
     = Float (2 * sqrt (PI * f * (4 * PI * 1e-7) * mur_c / sigma_c) / W)) /\
    (mur_c < 0 ->
     o_R out
     = Complex
         (mkC 0
            (2 * sqrt (- (PI * f * (4 * PI * 1e-7) * mur_c / sigma_c)) / W))) /\
    o_L_unit out = 4 * PI * 1e-7 * mur_c * d / W /\
    o_C out = 8.854e-12 * er * W / d /\
    o_G out = 2 * PI * f * o_C out * tan_delta.
Proof.
  intros Hf Hd HW Hs.
  exists (tem_values f d W sigma_c mur_c tan_delta er L).
  split; [apply calculate_tem_ok; lra |].
  unfold tem_values. cbn [o_R o_L_unit o_C o_G].
  fold mu0. fold eps0.
  destruct (Rs_arg_sign f sigma_c mur_c Hf Hs) as (Hpos & Hneg).
  repeat split.
  - intros Hm. rewrite scimath_sqrt_nonneg by (apply Hpos; exact Hm).
    reflexivity.
  - intros Hm. rewrite scimath_sqrt_neg by (apply Hneg; exact Hm).
    unfold num_div, num_mul, to_complex, Cmul, Cdiv, RtoC. simpl.
    f_equal. apply complex_eq; simpl; field; lra.
Qed.

Lemma rlcg_reference_formulas_witness :
  exists out,
    calculate_tem 6e9 0.005 0.1 [5.80e7; 1.0] [0; 1.0; 1.0005] 10 = Ok out /\
    o_L_unit out = 4 * PI * 1e-7 * 1.0 * 0.005 / 0.1 /\
    o_C out = 8.854e-12 * 1.0005 * 0.1 / 0.005.
Proof.
  destruct (rlcg_reference_formulas 6e9 0.005 0.1 5.80e7 1.0 0 1.0 1.0005 10)
    as (out & Hok & _ & _ & _ & HL & HC & _); try lra.
  exists out. repeat split; assumption.
Defined.

(** C2: on a valid input the call returns; its resistance is the real
    number [2*sqrt(pi*f*mu0*mur_c/sigma_c)/W], its other three parameters
    are the reference formulas, and with [Z = R + j*omega*L_unit],
    [Y = G + j*omega*C] built from these returned parameters and
    [omega = 2*pi*f], the returned [gamma] is the complex square root of
    [Z*Y] and the returned [Z0] the complex square root of [Z/Y]; that
    square root is the principal one ([csqrt_principal],
    [principal_sqrt_unique]).  On inputs that keep binary64 in range, [Y]
    is not zero and both roots have a non-negative real part. *)
Theorem gamma_Z0_principal_roots
    (f d W sigma_c mur_c tan_delta mur_d er L : R) :
  valid_input f d W L sigma_c mur_c tan_delta er ->
  exists out r,
    calculate_tem f d W [sigma_c; mur_c] [tan_delta; mur_d; er] L = Ok out /\
    o_R out = Float r /\
    r = 2 * sqrt (PI * f * (4 * PI * 1e-7) * mur_c / sigma_c) / W /\
    o_L_unit out = 4 * PI * 1e-7 * mur_c * d / W /\
    o_C out = 8.854e-12 * er * W / d /\
    o_G out = 2 * PI * f * o_C out * tan_delta /\
    let omega := 2 * PI * f in
    let Z := Cadd (RtoC r) (Cmul (Cmul Cj (RtoC omega)) (RtoC (o_L_unit out))) in
    let Y :=
      Cadd (RtoC (o_G out)) (Cmul (Cmul Cj (RtoC omega)) (RtoC (o_C out))) in
    o_gamma out = csqrt (Cmul Z Y) /\
    o_Z0 out = csqrt (Cdiv Z Y) /\
    (moderate_input f d W sigma_c mur_c tan_delta er ->
     (Re Y <> 0 \/ Im Y <> 0) /\
     0 <= Re (o_gamma out) /\ 0 <= Re (o_Z0 out)).
Proof.
  intros Hv.
  pose proof Hv as (Hf & Hd & HW & HL & Hs & Hm & Ht & He).
  exists (tem_values f d W sigma_c mur_c tan_delta er L).
  exists (2 * sqrt (PI * f * mu0 * mur_c / sigma_c) / W).
  split; [apply calculate_tem_ok; lra |].
  pose proof (valid_R_real f d W L sigma_c mur_c tan_delta er Hv) as HR.
  split; [exact HR |].
  split; [reflexivity |].
  split; [reflexivity |].
  split; [reflexivity |].
  split; [reflexivity |].
  intros omega Z Y.
  destruct (valid_gamma_Z0 f d W L sigma_c mur_c tan_delta er _ HR)
    as (Hg & HZ0).
  assert (EZ : Z = mkC (2 * sqrt (PI * f * mu0 * mur_c / sigma_c) / W)
                       (omega * o_L_unit
                          (tem_values f d W sigma_c mur_c tan_delta er L))).
  { unfold Z, Cadd, Cmul, Cj, RtoC. apply complex_eq; simpl; ring. }
  assert (EY : Y = mkC (o_G (tem_values f d W sigma_c mur_c tan_delta er L))
                       (omega * o_C
                          (tem_values f d W sigma_c mur_c tan_delta er L))).
  { unfold Y. apply Y_components. }
  fold omega in Hg, HZ0.
  split; [rewrite EZ, EY; exact Hg |].
  split; [rewrite EZ, EY; exact HZ0 |].
  intros _. split.
  - right. rewrite EY. cbn [Im]. apply Rgt_not_eq. apply Rmult_lt_0_compat.
    + apply (valid_w_pos f d W L sigma_c mur_c tan_delta er Hv).
    + apply (valid_C_pos f d W L sigma_c mur_c tan_delta er Hv).
  - split.
    + rewrite Hg. apply csqrt_re_nonneg.
    + rewrite HZ0. apply csqrt_re_nonneg.
Qed.

Lemma moderate_copper_air : moderate_input 6e9 0.005 0.1 5.80e7 1.0 0 1.0005.
Proof. unfold moderate_input. repeat split; lra. Defined.

Lemma gamma_Z0_principal_roots_witness :
  exists out,
    calculate_tem 6e9 0.005 0.1 [5.80e7; 1.0] [0; 1.0; 1.0005] 10 = Ok out /\
    0 <= Re (o_Z0 out).
Proof.
  destruct (gamma_Z0_principal_roots 6e9 0.005 0.1 5.80e7 1.0 0 1.0 1.0005 10
              valid_copper_air)
    as (out & r & Hok & _ & _ & _ & _ & _ & _ & _ & Hmod).
  exists out. split; [exact Hok |].
  apply (Hmod moderate_copper_air).
Defined.

(** C3, amended: on a valid input whose parameters all lie between [1e-30]
    and [1e30], so that no intermediate result overflows in binary64, the
    call returns a propagation constant whose real part is not negative. *)
Theorem gamma_real_part_nonneg
    (f d W sigma_c mur_c tan_delta mur_d er L : R) :
  valid_input f d W L sigma_c mur_c tan_delta er ->
  moderate_input f d W sigma_c mur_c tan_delta er ->
  exists out,
    calculate_tem f d W [sigma_c; mur_c] [tan_delta; mur_d; er] L = Ok out /\
    0 <= Re (o_gamma out).
Proof.
  intros (Hf & Hd & HW & HL & Hs & Hm & Ht & He) _.
  exists (tem_values f d W sigma_c mur_c tan_delta er L).
  split; [apply calculate_tem_ok; lra |].
  unfold tem_values, scimath_csqrt. cbn [o_gamma].
  apply csqrt_re_nonneg.
Qed.

Lemma gamma_real_part_nonneg_witness :
  exists out,
    calculate_tem 6e9 0.005 0.1 [5.80e7; 1.0] [0; 1.0; 1.0005] 10 = Ok out /\
    0 <= Re (o_gamma out).
Proof.
  exact (gamma_real_part_nonneg 6e9 0.005 0.1 5.80e7 1.0 0 1.0 1.0005 10
           valid_copper_air moderate_copper_air).
Defined.

(** ** Overflow, on binary64 floats *)

Section Binary64.

Import PrimFloat FloatOps FloatAxioms SpecFloat.
#[local] Set Warnings "-inexact-float".

(** Finiteness, read on the specification of a float. *)
Lemma is_finite_SF (x : float) :
  is_finite x
  = match Prim2SF x with
    | S754_nan | S754_infinity _ => false
    | _ => true
    end.
Proof.
  unfold is_finite, is_nan, is_infinity.
  rewrite !eqb_spec, abs_spec.
  change (Prim2SF infinity) with (S754_infinity false).
  destruct (Prim2SF x) as [b | b | | b m e]; try destruct b; try reflexivity;
    unfold SFeqb, SFabs, SFcompare;
    rewrite Z.compare_refl, Pos.compare_cont_refl; reflexivity.
Qed.

(** A negated float times zero: a zero when the float is finite, NaN when
    it is infinite or NaN. *)
Lemma neg_mul_zero (x : float) :
  (is_finite x = true ->
   (- x * 0)%float = zero \/ (- x * 0)%float = neg_zero) /\
  (is_finite x = false -> (- x * 0)%float = nan).
Proof.
  assert (E : (- x * 0)%float
              = SF2Prim (SF64mul (SFopp (Prim2SF x)) (S754_zero false))).
  { rewrite <- (SF2Prim_Prim2SF (- x * 0)%float), mul_spec, opp_spec.
    reflexivity. }
  rewrite is_finite_SF, E.
  destruct (Prim2SF x) as [b | b | | b m e]; split; intros H;
    try discriminate H; try reflexivity;
    destruct b; (left; reflexivity) || (right; reflexivity).
Qed.

(** C3, as stated, fails: iron plates ([Hierro]) and air ([Aire]) at
    [f = 1e10], [W = 1e-3], [d = 1e298], [L = 10] is a valid input, inside the
    widget ranges; [omega * L_unit] overflows, [Z * Y] is [-inf + NaN j],
    [gamma] is [NaN + inf j], and [0 <= Re(gamma)] is false. *)
Lemma gamma_is_nan_on_overflow :
  (B64.valid_b64 1e10 1e298 1e-3 10 1.03e7 500 0 1.0005)%float = true /\
  (B64.widget_b64 1e10 1e298 1e-3 10)%float = true /\
  (B64.line_ZY 1e10 1e298 1e-3 1.03e7 500 0 1.0005)%float
  = Some (B64.mkCF neg_infinity nan) /\
  exists gamma,
    (B64.gamma_b64 1e10 1e298 1e-3 1.03e7 500 0 1.0005)%float = Some gamma /\
    is_nan (B64.re64 gamma) = true /\
    (0 <=? B64.re64 gamma)%float = false.
Proof.
  split; [vm_compute; reflexivity |].
  split; [vm_compute; reflexivity |].
  split; [vm_compute; reflexivity |].
  exists (B64.mkCF nan infinity).
  split; [vm_compute; reflexivity |].
  split; vm_compute; reflexivity.
Qed.

(** C4, as stated, fails: at the same valid input the returned [gamma] is
    [NaN + inf j], [-gamma * 0] is [NaN + NaN j], and the first element of
    the voltage profile is [NaN + NaN j], not [1 + 0j]. *)
Lemma first_voltage_is_nan_on_overflow :
  (B64.valid_b64 1e10 1e298 1e-3 10 1.03e7 500 0 1.0005)%float = true /\
  exists gamma v0,
    (B64.gamma_b64 1e10 1e298 1e-3 1.03e7 500 0 1.0005)%float = Some gamma /\
    B64.V0_b64 gamma = Some v0 /\
    is_nan (B64.re64 v0) = true /\ is_nan (B64.im64 v0) = true /\
    (B64.re64 v0 =? 1)%float = false.
Proof.
  split; [vm_compute; reflexivity |].
  exists (B64.mkCF nan infinity), (B64.mkCF nan nan).
  repeat split; vm_compute; reflexivity.
Qed.

(** C4, amended: the first element of the voltage profile is exactly
    [1 + 0j] whenever both components of the returned [gamma] are finite,
    and [NaN + NaN j] whenever one of them is infinite or NaN. *)
Theorem first_voltage_b64 (gamma : B64.cfloat) :
  B64.V0_b64 gamma
  = if B64.finite64 gamma
    then Some (B64.mkCF 1 0)
    else Some (B64.mkCF nan nan).
Proof.
  destruct gamma as [x y].
  unfold B64.V0_b64, B64.Vk_b64, B64.finite64, B64.cmul64, B64.cneg64,
    B64.of_real.
  cbn [B64.re64 B64.im64].
  destruct (neg_mul_zero x) as (Hxf & Hxn).
  destruct (neg_mul_zero y) as (Hyf & Hyn).
  destruct (is_finite x); destruct (is_finite y).
  - destruct (Hxf eq_refl) as [-> | ->]; destruct (Hyf eq_refl) as [-> | ->];
      vm_compute; reflexivity.
  - rewrite (Hyn eq_refl).
    destruct (Hxf eq_refl) as [-> | ->]; vm_compute; reflexivity.
  - rewrite (Hxn eq_refl).
    destruct (Hyf eq_refl) as [-> | ->]; vm_compute; reflexivity.
  - rewrite (Hxn eq_refl), (Hyn eq_refl). vm_compute. reflexivity.
Qed.

End Binary64.

(** ** The spatial axis and the two profiles *)

Lemma nth_map_lt {A B : Type} (g : A -> B) (l : list A) (k : nat)
    (dA : A) (dB : B) :
  (k < List.length l)%nat -> nth k (map g l) dB = g (nth k l dA).
Proof.
  intros Hk.
  rewrite (nth_indep _ dB (g dA)) by (rewrite length_map; exact Hk).
  apply map_nth.
Qed.

Lemma INR_499 : INR 499 = 499.
Proof. rewrite INR_IZR_INZ. reflexivity. Qed.

Lemma axis_length (L : R) : List.length (linspace 0 L 500) = 500%nat.
Proof. exact (linspace_length 0 L 498). Qed.

Lemma axis_nth (L : R) (k : nat) :
  (k < 500)%nat -> nth k (linspace 0 L 500) 0 = INR k * (L / 499).
Proof.
  intros Hk. rewrite (linspace_nth 0 L 498 k Hk).
  rewrite INR_499.
  unfold Rdiv. ring.
Qed.

Lemma axis_step (L : R) (k : nat) :
  (S k < 500)%nat ->
  nth (S k) (linspace 0 L 500) 0 - nth k (linspace 0 L 500) 0 = L / 499.
Proof.
  intros Hk. rewrite !axis_nth by lia. rewrite S_INR. ring.
Qed.

Section Profiles.

Variables f d W sigma_c mur_c tan_delta er L : R.

Let out : tem_output := tem_values f d W sigma_c mur_c tan_delta er L.

Lemma tem_z_length : List.length (o_z out) = 500%nat.
Proof. unfold out, tem_values. cbn [o_z]. apply axis_length. Qed.

Lemma tem_V_length : List.length (o_V_z out) = 500%nat.
Proof.
  unfold out, tem_values. cbn [o_V_z]. rewrite length_map. apply axis_length.
Qed.

Lemma tem_I_length : List.length (o_I_z out) = 500%nat.
Proof.
  unfold out, tem_values. cbn [o_I_z]. rewrite !length_map. apply axis_length.
Qed.

Lemma tem_V_nth (k : nat) (dflt : complex) :
  (k < 500)%nat ->
  nth k (o_V_z out) dflt
  = Cmul (RtoC 1.0)
      (Cexp (Cmul (Cneg (o_gamma out)) (RtoC (nth k (o_z out) 0)))).
Proof.
  intros Hk. unfold out, tem_values. cbn [o_V_z o_z o_gamma].
  assert (Hlen : (k < List.length (linspace 0 L 500))%nat)
    by (rewrite axis_length; exact Hk).
  exact (nth_map_lt
           (fun zk => Cmul (RtoC 1.0) (Cexp (Cmul (Cneg _) (RtoC zk))))
           _ k 0 dflt Hlen).
Qed.


End Profiles.



(** C6: on a valid input the call returns an axis of exactly 500 points,
    starting at [0], ending at [L], with the constant spacing [L/499]
    between neighbours (so strictly increasing), and the two profiles have
    500 elements each. *)
Theorem axis_500_uniform_points
    (f d W sigma_c mur_c tan_delta mur_d er L : R) :
  valid_input f d W L sigma_c mur_c tan_delta er ->
  exists out,
    calculate_tem f d W [sigma_c; mur_c] [tan_delta; mur_d; er] L = Ok out /\
    List.length (o_z out) = 500%nat /\
    nth 0 (o_z out) 0 = 0 /\
    nth 499 (o_z out) 0 = L /\
    (forall k, (S k < 500)%nat ->
       nth (S k) (o_z out) 0 - nth k (o_z out) 0 = L / 499) /\
    (forall k, (S k < 500)%nat -> nth k (o_z out) 0 < nth (S k) (o_z out) 0) /\
    List.length (o_V_z out) = List.length (o_z out) /\
    List.length (o_I_z out) = List.length (o_z out).
Proof.
  intros (Hf & Hd & HW & HL & Hs & Hm & Ht & He).
  exists (tem_values f d W sigma_c mur_c tan_delta er L).
  split; [apply calculate_tem_ok; lra |].
  rewrite tem_V_length, tem_I_length, tem_z_length.
  unfold tem_values. cbn [o_z].
  split; [reflexivity |].
  split; [rewrite axis_nth by lia; change (INR 0) with 0; ring |].
  split; [exact (linspace_nth_last 0 L 498) |].
  split; [intros k Hk; apply axis_step; exact Hk |].
  split; [| split; reflexivity].
  intros k Hk. pose proof (axis_step L k Hk). lra.
Qed.

Lemma axis_500_uniform_points_witness :
  exists out,
    calculate_tem 6e9 0.005 0.1 [5.80e7; 1.0] [0; 1.0; 1.0005] 10 = Ok out /\
    List.length (o_z out) = 500%nat /\
    nth 499 (o_z out) 0 = 10.
Proof.
  destruct (axis_500_uniform_points 6e9 0.005 0.1 5.80e7 1.0 0 1.0 1.0005 10
              valid_copper_air)
    as (out & Hok & Hlen & _ & Hlast & _).
  exists out. repeat split; assumption.
Defined.

(** ** The material tables *)

(** No key is listed twice, so the number of pairs of a literal is the
    number of entries of the dict. *)
Lemma conductor_keys_nodup : NoDup (keys MATERIALES_CONDUCTORES).
Proof.
  unfold keys, MATERIALES_CONDUCTORES. cbn [map fst].
  repeat (constructor; [cbn [In]; intuition discriminate |]).
  constructor.
Qed.

Lemma dielectric_keys_nodup : NoDup (keys MATERIALES_DIELECTRICOS).
Proof.
  unfold keys, MATERIALES_DIELECTRICOS. cbn [map fst].
  repeat (constructor; [cbn [In]; intuition discriminate |]).
  constructor.
Qed.

(** C8, as stated, fails: the tables are keyed in Spanish, and neither has
    an entry under the name Copper or Air. *)
Lemma no_entry_named_Copper_or_Air :
  dict_get "Copper" MATERIALES_CONDUCTORES = None /\
  dict_get "Air" MATERIALES_DIELECTRICOS = None /\
  ~ In "Copper"%string (keys MATERIALES_CONDUCTORES) /\
  ~ In "Air"%string (keys MATERIALES_DIELECTRICOS).
Proof.
  split; [reflexivity |]. split; [reflexivity |].
  split; cbn [keys map fst MATERIALES_CONDUCTORES MATERIALES_DIELECTRICOS In];
    intuition discriminate.
Qed.

(** C8, amended: the tables hold exactly 9 conductors and 22 dielectrics
    under pairwise distinct names; copper is the entry [Cobre], with
    [sigma = 5.80e7] and [mu_r = 1.0], and air the entry [Aire], with
    [tan_delta = 0], [mu_r = 1.0] and [epsilon_r = 1.0005]. *)
Theorem catalog_counts_and_entries :
  List.length MATERIALES_CONDUCTORES = 9%nat /\
  List.length MATERIALES_DIELECTRICOS = 22%nat /\
  NoDup (keys MATERIALES_CONDUCTORES) /\
  NoDup (keys MATERIALES_DIELECTRICOS) /\
  (forall k v, dict_get k MATERIALES_CONDUCTORES = Some v ->
     List.length v = 2%nat) /\
  (forall k v, dict_get k MATERIALES_DIELECTRICOS = Some v ->
     List.length v = 3%nat) /\
  (exists sigma mu_r,
     dict_get "Cobre" MATERIALES_CONDUCTORES = Some [sigma; mu_r] /\
     sigma = 58000000 /\ mu_r = 1) /\
  (exists tan_delta mu_r epsilon_r,
     dict_get "Aire" MATERIALES_DIELECTRICOS = Some [tan_delta; mu_r; epsilon_r] /\
     tan_delta = 0 /\ mu_r = 1 /\ epsilon_r = 10005 / 10000).
Proof.
  split; [reflexivity |]. split; [reflexivity |].
  split; [exact conductor_keys_nodup |].
  split; [exact dielectric_keys_nodup |].
  split.
  { intros k v. unfold MATERIALES_CONDUCTORES. cbn [dict_get].
    repeat (destruct (String.eqb k _);
            [intros H; injection H as <-; reflexivity |]).
    discriminate. }
  split.
  { intros k v. unfold MATERIALES_DIELECTRICOS. cbn [dict_get].
    repeat (destruct (String.eqb k _);
            [intros H; injection H as <-; reflexivity |]).
    discriminate. }
  split.
  - exists 5.80e7, 1.0. split; [reflexivity |]. split; lra.
  - exists 0, 1.0, 1.0005. split; [reflexivity |]. repeat split; lra.
Qed.

(** ** Totality and the unread field *)

(** C9: for positive frequency, geometry and conductivity the call raises
    nothing and returns the complete tuple, with its three sequences of 500
    elements. *)
Theorem calculate_tem_total
    (f d W sigma_c mur_c tan_delta mur_d er L : R) :
  0 < f -> 0 < d -> 0 < W -> 0 < L -> 0 < sigma_c ->
  exists out,
    calculate_tem f d W [sigma_c; mur_c] [tan_delta; mur_d; er] L = Ok out /\
    List.length (o_z out) = 500%nat /\
    List.length (o_V_z out) = 500%nat /\
    List.length (o_I_z out) = 500%nat.
Proof.
  intros Hf Hd HW HL Hs.
  exists (tem_values f d W sigma_c mur_c tan_delta er L).
  split; [apply calculate_tem_ok; lra |].
  rewrite tem_z_length, tem_V_length, tem_I_length.
  repeat split.
Qed.

Lemma calculate_tem_total_witness :
  exists out,
    calculate_tem 6e9 0.005 0.1 [5.80e7; 1.0] [0; 1.0; 1.0005] 10 = Ok out.
Proof.
  destruct (calculate_tem_total 6e9 0.005 0.1 5.80e7 1.0 0 1.0 1.0005 10)
    as (out & Hok & _); try lra.
  exists out. exact Hok.
Defined.

(** The only exceptions of the body: a material list too short, or a zero
    conductivity, width or separation. *)
Lemma calculate_tem_raises_on_zero_width
    (f d sigma_c mur_c tan_delta mur_d er L : R) :
  sigma_c <> 0 ->
  calculate_tem f d 0 [sigma_c; mur_c] [tan_delta; mur_d; er] L
  = Raise ZeroDivisionError.
Proof.
  intros Hs. unfold calculate_tem. cbn [getitem nth_error bind].
  rewrite (truediv_ok _ sigma_c Hs). cbn [bind].
  rewrite truediv_zero. reflexivity.
Qed.

Lemma calculate_tem_raises_on_short_list (f d W L : R) (dd : list R) :
  calculate_tem f d W [] dd L = Raise IndexError.
Proof. reflexivity. Qed.

(** C10: two calls whose dielectric lists agree at every index but 1 give
    the same outcome, be it the same tuple or the same exception; and the
    inductance of a returned tuple is built from the conductor's
    permeability, [conductor_data[1]]. *)
Theorem dielectric_mur_is_not_read
    (f d W : R) (conductor_data dd1 dd2 : list R) (L : R) :
  (forall i, i <> 1%nat -> nth_error dd1 i = nth_error dd2 i) ->
  calculate_tem f d W conductor_data dd1 L
  = calculate_tem f d W conductor_data dd2 L /\
  forall out mur_c,
    calculate_tem f d W conductor_data dd1 L = Ok out ->
    nth_error conductor_data 1 = Some mur_c ->
    o_L_unit out = mu0 * mur_c * d / W.
Proof.
  intros Hsame. split.
  - unfold calculate_tem, getitem.
    rewrite (Hsame 0%nat) by discriminate.
    rewrite (Hsame 2%nat) by discriminate.
    reflexivity.
  - intros out mur_c Hok Hmur.
    destruct (calculate_tem_inv _ _ _ _ _ _ _ Hok)
      as (s & m & t & e & _ & Hm & _ & _ & _ & _ & _ & ->).
    rewrite Hmur in Hm. injection Hm as <-.
    reflexivity.
Qed.

Lemma dielectric_mur_is_not_read_witness :
  calculate_tem 6e9 0.005 0.1 [5.80e7; 1.0] [0; 1.0; 1.0005] 10
  = calculate_tem 6e9 0.005 0.1 [5.80e7; 1.0] [0; 7; 1.0005] 10.
Proof.
  apply (dielectric_mur_is_not_read 6e9 0.005 0.1 [5.80e7; 1.0]
           [0; 1.0; 1.0005] [0; 7; 1.0005] 10).
  intros i Hi.
  destruct i as [| [| i]]; [reflexivity | contradiction | reflexivity].
Defined.

(** * Further properties of the solver and of its caller *)

(** ** Which exception, and when *)

Lemma calculate_tem_long_lists
    (f d W s m t x e L : R) (cd' dd' : list R) :
  calculate_tem f d W (s :: m :: cd') (t :: x :: e :: dd') L
  = if Req_dec_T s 0 then Raise ZeroDivisionError
    else if Req_dec_T W 0 then Raise ZeroDivisionError
    else if Req_dec_T d 0 then Raise ZeroDivisionError
    else Ok (tem_values f d W s m t e L).
Proof.
  unfold calculate_tem, getitem, truediv. cbn [nth_error bind].
  destruct (Req_dec_T s 0); cbn [bind]; [reflexivity |].
  destruct (Req_dec_T W 0); cbn [bind]; [reflexivity |].
  destruct (Req_dec_T d 0); cbn [bind]; reflexivity.
Qed.

Lemma calculate_tem_short_lists (f d W L : R) (cd dd : list R) :
  (List.length cd < 2 \/ List.length dd < 3)%nat ->
  calculate_tem f d W cd dd L = Raise IndexError.
Proof.
  intros Hshort. unfold calculate_tem, getitem.
  destruct cd as [| s [| m cd']]; cbn [nth_error bind]; try reflexivity.
  destruct dd as [| t [| x [| e dd']]]; cbn [nth_error bind]; try reflexivity.
  cbn [List.length] in Hshort. lia.
Qed.

(** X1: the solver raises [IndexError] exactly when one of the two material
    lists is too short for the indices read (1 for the conductor, 2 for the
    dielectric), and [ZeroDivisionError] exactly when both lists are long
    enough and the conductivity, the width or the separation is zero; the
    frequency, the length and the other material fields never make it
    raise. *)
Theorem calculate_tem_exceptions
    (f d W : R) (conductor_data dielectric_data : list R) (L : R) :
  (calculate_tem f d W conductor_data dielectric_data L = Raise IndexError
   <-> (List.length conductor_data < 2 \/ List.length dielectric_data < 3)%nat)
  /\
  (calculate_tem f d W conductor_data dielectric_data L = Raise ZeroDivisionError
   <-> (2 <= List.length conductor_data)%nat /\
       (3 <= List.length dielectric_data)%nat /\
       (nth 0 conductor_data 0 = 0 \/ W = 0 \/ d = 0)).
Proof.
  destruct (le_lt_dec 2 (List.length conductor_data)) as [Hc | Hc];
    [destruct (le_lt_dec 3 (List.length dielectric_data)) as [Hd | Hd] |].
  - destruct conductor_data as [| s [| m cd']];
      cbn [List.length] in Hc; try lia.
    destruct dielectric_data as [| t [| x [| e dd']]];
      cbn [List.length] in Hd; try lia.
    rewrite calculate_tem_long_lists. cbn [nth List.length].
    destruct (Req_dec_T s 0) as [Hs | Hs];
      [| destruct (Req_dec_T W 0) as [HW | HW];
         [| destruct (Req_dec_T d 0) as [Hd0 | Hd0]]];
      split; split; intros H;
      solve [discriminate H | reflexivity | lia | tauto
             | repeat split; solve [lia | tauto]].
  - rewrite calculate_tem_short_lists by (right; exact Hd).
    split; split; intros H;
      solve [discriminate H | reflexivity | lia | tauto].
  - rewrite calculate_tem_short_lists by (left; exact Hc).
    split; split; intros H;
      solve [discriminate H | reflexivity | lia | tauto].
Qed.

(** ** The zero-frequency edge, on binary64 floats *)

Section ZeroFrequency.

Import PrimFloat FloatOps FloatAxioms SpecFloat.
#[local] Set Warnings "-inexact-float".

Ltac zero_side :=
  first [ left; vm_compute; reflexivity | right; vm_compute; reflexivity ].

(** A zero times a finite float, and a zero divided by a finite non-zero
    float, are zeros. *)
Lemma mul_zero_finite (a b : float) :
  B64.signed_zero a -> is_finite b = true -> B64.signed_zero (a * b)%float.
Proof.
  intros Ha Hb. rewrite is_finite_SF in Hb.
  assert (E : (a * b)%float = SF2Prim (SF64mul (Prim2SF a) (Prim2SF b)))
    by (rewrite <- (SF2Prim_Prim2SF (a * b)%float), mul_spec; reflexivity).
  rewrite E. unfold B64.signed_zero.
  destruct (Prim2SF b) as [s | s | | s m e]; try discriminate Hb;
    destruct Ha as [-> | ->]; destruct s;
    (left; reflexivity) || (right; reflexivity).
Qed.

Lemma div_zero_finite (a b : float) :
  B64.signed_zero a -> is_finite b = true -> (b =? 0)%float = false ->
  B64.signed_zero (a / b)%float.
Proof.
  intros Ha Hb Hnz. rewrite is_finite_SF in Hb. rewrite eqb_spec in Hnz.
  assert (E : (a / b)%float = SF2Prim (SF64div (Prim2SF a) (Prim2SF b)))
    by (rewrite <- (SF2Prim_Prim2SF (a / b)%float), div_spec; reflexivity).
  rewrite E. unfold B64.signed_zero.
  change (Prim2SF 0%float) with (S754_zero false) in Hnz.
  destruct (Prim2SF b) as [s | s | | s m e];
    try discriminate Hb; try discriminate Hnz;
    destruct Ha as [-> | ->]; destruct s;
    (left; reflexivity) || (right; reflexivity).
Qed.

(** The outcome of lines 95 to 106 when [Z] and [Y] are zeros of any
    signs. *)
Lemma zero_Z_Y_outcome (Z Y : B64.cfloat) :
  B64.signed_zero (B64.re64 Z) -> B64.signed_zero (B64.im64 Z) ->
  B64.signed_zero (B64.re64 Y) -> B64.signed_zero (B64.im64 Y) ->
  (exists gamma,
     B64.csqrt64 (B64.cmul64 Z Y) = Some gamma /\
     B64.re64 gamma = zero /\ B64.signed_zero (B64.im64 gamma)) /\
  B64.cdiv64 Z Y = Some (B64.mkCF nan nan).
Proof.
  destruct Z as [zr zi], Y as [yr yi]. cbn [B64.re64 B64.im64].
  unfold B64.signed_zero.
  intros [-> | ->] [-> | ->] [-> | ->] [-> | ->];
    (split; [eexists; split; [vm_compute; reflexivity |];
             split; [reflexivity | (left; reflexivity) || (right; reflexivity)]
            | vm_compute; reflexivity]).
Qed.

(** A voltage sample for a zero [gamma] at a finite axis point. *)
Lemma zero_gamma_sample (gamma : B64.cfloat) (zk : float) :
  B64.re64 gamma = zero -> B64.signed_zero (B64.im64 gamma) ->
  is_finite zk = true ->
  B64.Vk_b64 gamma zk = Some (B64.mkCF 1 0).
Proof.
  destruct gamma as [gr gi]. cbn [B64.re64 B64.im64].
  intros -> Hgi Hz.
  unfold B64.Vk_b64, B64.cmul64, B64.cneg64, B64.of_real.
  cbn [B64.re64 B64.im64].
  assert (Hr : B64.signed_zero (- zero * zk)%float).
  { apply mul_zero_finite; [right; vm_compute; reflexivity | exact Hz]. }
  assert (Hi : B64.signed_zero (- gi * zk)%float).
  { apply mul_zero_finite; [| exact Hz].
    destruct Hgi as [-> | ->]; [right | left]; vm_compute; reflexivity. }
  destruct Hr as [-> | ->]; destruct Hi as [-> | ->];
    destruct Hgi as [-> | ->]; vm_compute; reflexivity.
Qed.

(** X2: at [f = 0], for finite inputs with a non-zero conductivity, width
    and separation and finite [L_unit] and [C], the solver raises nothing
    and divides zero by zero: [Z] and [Y] are zeros, [gamma] is a zero,
    every voltage sample at a finite axis point is exactly [1 + 0j], and
    [Z0 = sqrt(Z / Y)] is [NaN + NaN j], as is then every current sample. *)
Theorem zero_frequency_b64 (d W sigma_c mur_c tan_delta er : float) :
  is_finite sigma_c = true -> (sigma_c =? 0)%float = false ->
  is_finite W = true -> (W =? 0)%float = false ->
  (d =? 0)%float = false ->
  is_finite mur_c = true -> is_finite tan_delta = true ->
  is_finite (B64.L_unit_b64 d W mur_c) = true ->
  is_finite (B64.C_b64 d W er) = true ->
  exists gamma,
    B64.gamma_b64 0 d W sigma_c mur_c tan_delta er = Some gamma /\
    B64.re64 gamma = zero /\ B64.signed_zero (B64.im64 gamma) /\
    (forall zk, is_finite zk = true ->
       B64.Vk_b64 gamma zk = Some (B64.mkCF 1 0)) /\
    B64.Z0_b64 0 d W sigma_c mur_c tan_delta er = Some (B64.mkCF nan nan) /\
    (forall v, B64.Ik_b64 v (B64.mkCF nan nan) = Some (B64.mkCF nan nan)).
Proof.
  intros Hs Hs0 HW HW0 Hd0 Hm Ht HL HC.
  assert (HZY : exists Z Y,
            B64.line_Z_Y 0 d W sigma_c mur_c tan_delta er = Some (Z, Y) /\
            B64.signed_zero (B64.re64 Z) /\ B64.signed_zero (B64.im64 Z) /\
            B64.signed_zero (B64.re64 Y) /\ B64.signed_zero (B64.im64 Y)).
  { unfold B64.line_Z_Y. rewrite Hs0, HW0, Hd0. cbn [orb].
    assert (E0 : (B64.pi64 * 0 * B64.mu0_64)%float = zero)
      by (vm_compute; reflexivity).
    assert (Ew : (2 * B64.pi64 * 0)%float = zero)
      by (vm_compute; reflexivity).
    rewrite E0, Ew.
    assert (Hq : B64.signed_zero (zero * mur_c / sigma_c)%float).
    { apply div_zero_finite; [| exact Hs | exact Hs0].
      apply mul_zero_finite; [left; reflexivity | exact Hm]. }
    assert (Hlt : ((zero * mur_c / sigma_c) <? 0)%float = false)
      by (destruct Hq as [-> | ->]; vm_compute; reflexivity).
    rewrite Hlt.
    assert (HR : B64.signed_zero (2 * sqrt (zero * mur_c / sigma_c) / W)%float).
    { apply div_zero_finite; [| exact HW | exact HW0].
      destruct Hq as [-> | ->]; [left | right]; vm_compute; reflexivity. }
    assert (HwL : B64.signed_zero (zero * B64.L_unit_b64 d W mur_c)%float)
      by (apply mul_zero_finite; [left; reflexivity | exact HL]).
    assert (HwC : B64.signed_zero (zero * B64.C_b64 d W er)%float)
      by (apply mul_zero_finite; [left; reflexivity | exact HC]).
    assert (HG : B64.signed_zero (zero * B64.C_b64 d W er * tan_delta)%float)
      by (apply mul_zero_finite; [exact HwC | exact Ht]).
    eexists. eexists. split; [reflexivity |].
    unfold B64.cadd64, B64.cmul64, B64.j64, B64.of_real.
    cbn [B64.re64 B64.im64].
    assert (E00 : (0 * zero - 1 * 0)%float = zero) by (vm_compute; reflexivity).
    assert (E01 : (0 * 0 + 1 * zero)%float = zero) by (vm_compute; reflexivity).
    rewrite E00, E01.
    repeat split.
    - destruct HR as [-> | ->]; destruct HwL as [-> | ->]; zero_side.
    - destruct HwL as [-> | ->]; zero_side.
    - destruct HwC as [EC | EC]; rewrite EC in HG |- *;
        destruct HG as [-> | ->]; zero_side.
    - destruct HwC as [-> | ->]; zero_side. }
  destruct HZY as (Z & Y & EZY & HZr & HZi & HYr & HYi).
  destruct (zero_Z_Y_outcome Z Y HZr HZi HYr HYi)
    as ((gamma & Eg & Hgr & Hgi) & Eq).
  exists gamma.
  split; [unfold B64.gamma_b64, B64.line_ZY; rewrite EZY; exact Eg |].
  split; [exact Hgr |]. split; [exact Hgi |].
  split; [intros zk Hz; apply zero_gamma_sample; assumption |].
  split.
  - unfold B64.Z0_b64. rewrite EZY, Eq. vm_compute. reflexivity.
  - intros v. reflexivity.
Qed.

Lemma zero_frequency_b64_witness :
  (B64.Z0_b64 0 0.005 0.1 5.80e7 1.0 0 1.0005)%float
  = Some (B64.mkCF nan nan).
Proof.
  assert (H : exists gamma,
            (B64.gamma_b64 0 0.005 0.1 5.80e7 1.0 0 1.0005)%float = Some gamma /\
            B64.re64 gamma = zero /\ B64.signed_zero (B64.im64 gamma) /\
            (forall zk, is_finite zk = true ->
               B64.Vk_b64 gamma zk = Some (B64.mkCF 1 0)) /\
            (B64.Z0_b64 0 0.005 0.1 5.80e7 1.0 0 1.0005)%float
            = Some (B64.mkCF nan nan) /\
            (forall v, B64.Ik_b64 v (B64.mkCF nan nan)
                       = Some (B64.mkCF nan nan))).
  { apply zero_frequency_b64; vm_compute; reflexivity. }
  destruct H as (gamma & _ & _ & _ & _ & HZ0 & _). exact HZ0.
Defined.

End ZeroFrequency.

(** ** Material selection *)

Lemma dict_get_In (k : string) (v : list R) (t : dict) :
  dict_get k t = Some v -> In (k, v) t.
Proof.
  induction t as [| [k' v'] t IH]; cbn [dict_get]; [discriminate |].
  destruct (String.eqb k k') eqn:E.
  - intros H. injection H as <-. apply String.eqb_eq in E. subst k'.
    left. reflexivity.
  - intros H. right. apply IH. exact H.
Qed.

(** A subscript succeeds exactly on the listed keys. *)
Lemma dict_get_keys (k : string) (t : dict) :
  In k (keys t) <-> exists v, dict_get k t = Some v.
Proof.
  unfold keys. induction t as [| [k' v'] t IH]; cbn [dict_get map fst In].
  - split; [contradiction | intros (v & H); discriminate H].
  - destruct (String.eqb k k') eqn:E.
    + apply String.eqb_eq in E. subst k'.
      split; [intros _; exists v'; reflexivity | intros _; left; reflexivity].
    + apply String.eqb_neq in E. rewrite <- IH.
      split; [intros [H | H]; [congruence | exact H] | intros H; right; exact H].
Qed.

Lemma conductors_well_formed :
  Forall (fun kv => exists sigma_c mur_c,
            snd kv = [sigma_c; mur_c] /\ 0 < sigma_c /\ 1 <= mur_c)
    MATERIALES_CONDUCTORES.
Proof.
  unfold MATERIALES_CONDUCTORES.
  repeat (constructor;
          [do 2 eexists; split; [reflexivity | split; lra] |]).
  constructor.
Qed.

Lemma dielectrics_well_formed :
  Forall (fun kv => exists tan_delta er,
            snd kv = [tan_delta; 1.0; er] /\ 0 <= tan_delta <= 0.5 /\ 1 < er)
    MATERIALES_DIELECTRICOS.
Proof.
  unfold MATERIALES_DIELECTRICOS.
  repeat (constructor;
          [do 2 eexists; split; [reflexivity | split; lra] |]).
  constructor.
Qed.

(** X3: whatever the two select boxes offer (the keys of the two tables)
    and whatever the sliders and number fields allow, the two subscripts
    succeed, the conductor entry is a pair and the dielectric entry a triple
    with permeability [1.0], the input is in the valid domain, and the
    solver call of the [try] block returns a tuple. *)
Theorem widget_inputs_are_valid
    (material_conductor_name material_diel_name : string)
    (f t_fase d W L : R) :
  In material_conductor_name (keys MATERIALES_CONDUCTORES) ->
  In material_diel_name (keys MATERIALES_DIELECTRICOS) ->
  widget_ranges f t_fase d W L ->
  exists sigma_c mur_c tan_delta er out,
    dict_get material_conductor_name MATERIALES_CONDUCTORES
    = Some [sigma_c; mur_c] /\
    dict_get material_diel_name MATERIALES_DIELECTRICOS
    = Some [tan_delta; 1.0; er] /\
    valid_input f d W L sigma_c mur_c tan_delta er /\
    calculate_tem f d W [sigma_c; mur_c] [tan_delta; 1.0; er] L = Ok out.
Proof.
  intros Hc Hd (Hf & Ht & Hd1 & HW & HL).
  apply dict_get_keys in Hc. destruct Hc as (cd & Hcd).
  apply dict_get_keys in Hd. destruct Hd as (dd & Hdd).
  pose proof conductors_well_formed as Fc. rewrite Forall_forall in Fc.
  destruct (Fc _ (dict_get_In _ _ _ Hcd)) as (sigma_c & mur_c & Ec & Hs & Hm).
  pose proof dielectrics_well_formed as Fd. rewrite Forall_forall in Fd.
  destruct (Fd _ (dict_get_In _ _ _ Hdd)) as (tan_delta & er & Ed & Htd & He).
  cbn [snd] in Ec, Ed. subst cd dd.
  exists sigma_c, mur_c, tan_delta, er.
  exists (tem_values f d W sigma_c mur_c tan_delta er L).
  split; [exact Hcd |]. split; [exact Hdd |].
  split; [unfold valid_input; repeat split; lra |].
  apply calculate_tem_ok; lra.
Qed.

Lemma widget_inputs_are_valid_witness :
  exists sigma_c mur_c tan_delta er,
    valid_input 6e9 0.005 0.1 10.0 sigma_c mur_c tan_delta er.
Proof.
  destruct (widget_inputs_are_valid "Hierro" "Nieve" 6e9 0.0 0.005 0.1 10.0)
    as (sigma_c & mur_c & tan_delta & er & out & _ & _ & Hv & _).
  - cbn [keys map fst MATERIALES_CONDUCTORES In]. tauto.
  - cbn [keys map fst MATERIALES_DIELECTRICOS In]. tauto.
  - unfold widget_ranges. pose proof PI_RGT_0. repeat split; lra.
  - exists sigma_c, mur_c, tan_delta, er. exact Hv.
Defined.
